(** * 06_LED_Blink_SW: a debounced push button driving a three-LED sequence

    Shallow embedding of the Arduino sketch [06_LED_Blink_SW.ino].

    The sketch keeps five global variables, reads one input pin and the
    millisecond counter, and writes three output pins.  Each C++ function is
    embedded as a computation in a small state monad over a [World] that
    holds the global variables together with the board: the output latches,
    the pin modes, and the readings that [millis()] and [digitalRead()] will
    deliver, one per call. *)

From stdpp Require Import base gmap.
From Stdlib Require Import ZArith Bool Lia.

Local Open Scope Z_scope.

(** ** Machine integers *)

(** [unsigned long] is 32 bits wide: arithmetic on it is modulo 2^32. *)
Definition U32_MOD : Z := 2 ^ 32.

Definition u32 (z : Z) : Z := z mod U32_MOD.

(** [a - b] on two [unsigned long] operands. *)
Definition u32_sub (a b : Z) : Z := u32 (a - b).

(** [int] is 16 bits wide on the AVR boards; [stepIndex++] is the only
    arithmetic done on an [int], with two's complement wrap-around. *)
Definition INT_BITS : Z := 16.

Definition int_wrap (z : Z) : Z :=
  (z + 2 ^ (INT_BITS - 1)) mod 2 ^ INT_BITS - 2 ^ (INT_BITS - 1).

(** ** Constants of the sketch *)

Definition HIGH : bool := true.
Definition LOW : bool := false.

Definition SW_PIN : Z := 2.
Definition LED1_PIN : Z := 8.
Definition LED2_PIN : Z := 9.
Definition LED3_PIN : Z := 10.

Definition DEBOUNCE_MS : Z := 20.

Definition STEP_OFF : Z := 0.
Definition STEP_LED1 : Z := 1.
Definition STEP_LED2 : Z := 2.
Definition STEP_LED3 : Z := 3.
Definition STEP_ALL : Z := 4.

Definition LED_INTERVAL_MS : Z := 300.

(** ** Program state and board *)

Inductive PinMode : Type := INPUT | OUTPUT | INPUT_PULLUP.

(** The global variables of the sketch. *)
Record Globals : Type := mkGlobals {
  mode : bool;
  lastSwState : bool;
  lastSwTime : Z;
  ledTimer : Z;
  stepIndex : Z
}.

(** The board.  [clock k] is the time in milliseconds since power-up at
    which the [k]-th call of [millis()] happens ([millis()] returns it
    modulo 2^32); [levels k p] is the level the [k]-th call of
    [digitalRead()] sees on pin [p].  [ticks] and [reads] count the calls
    made so far. *)
Record Board : Type := mkBoard {
  clock : nat -> Z;
  ticks : nat;
  levels : nat -> Z -> bool;
  reads : nat;
  pin_mode : gmap Z PinMode;
  pin_out : gmap Z bool
}.

Record World : Type := mkWorld {
  vars : Globals;
  board : Board
}.

Definition set_mode (v : bool) (g : Globals) : Globals :=
  mkGlobals v (lastSwState g) (lastSwTime g) (ledTimer g) (stepIndex g).
Definition set_lastSwState (v : bool) (g : Globals) : Globals :=
  mkGlobals (mode g) v (lastSwTime g) (ledTimer g) (stepIndex g).
Definition set_lastSwTime (v : Z) (g : Globals) : Globals :=
  mkGlobals (mode g) (lastSwState g) v (ledTimer g) (stepIndex g).
Definition set_ledTimer (v : Z) (g : Globals) : Globals :=
  mkGlobals (mode g) (lastSwState g) (lastSwTime g) v (stepIndex g).
Definition set_stepIndex (v : Z) (g : Globals) : Globals :=
  mkGlobals (mode g) (lastSwState g) (lastSwTime g) (ledTimer g) v.

(** ** The monad of sketch computations *)

Definition M (A : Type) : Type := World -> A * World.

Definition ret {A : Type} (a : A) : M A := fun w => (a, w).

Definition bind {A B : Type} (c : M A) (k : A -> M B) : M B :=
  fun w => let (a, w') := c w in k a w'.

Notation "x <- c ;; k" := (bind c (fun x => k))
  (at level 100, c at next level, right associativity).
Notation "c ;; k" := (bind c (fun _ => k))
  (at level 100, right associativity).

(** An [if] without [else]. *)
Definition when (b : bool) (c : M unit) : M unit :=
  if b then c else ret tt.

(** Reading and writing a global variable. *)
Definition load {A : Type} (field : Globals -> A) : M A :=
  fun w => (field (vars w), w).

Definition store {A : Type} (setter : A -> Globals -> Globals) (v : A) : M unit :=
  fun w => (tt, mkWorld (setter v (vars w)) (board w)).

(** The value returned and the world left by a computation. *)
Definition result {A : Type} (c : M A) (w : World) : A := fst (c w).
Definition exec {A : Type} (c : M A) (w : World) : World := snd (c w).

(** ** The Arduino primitives the sketch calls *)

(** The reading the next call of [millis()] returns. *)
Definition next_millis (w : World) : Z :=
  u32 (clock (board w) (ticks (board w))).

(** The reading the call of [millis()] after the next one returns. *)
Definition second_millis (w : World) : Z :=
  u32 (clock (board w) (S (ticks (board w)))).

(** The level the next call of [digitalRead(pin)] returns. *)
Definition next_level (pin : Z) (w : World) : bool :=
  levels (board w) (reads (board w)) pin.

Definition millis : M Z :=
  fun w =>
    let b := board w in
    (next_millis w,
     mkWorld (vars w)
       (mkBoard (clock b) (S (ticks b)) (levels b) (reads b)
          (pin_mode b) (pin_out b))).

Definition digitalRead (pin : Z) : M bool :=
  fun w =>
    let b := board w in
    (next_level pin w,
     mkWorld (vars w)
       (mkBoard (clock b) (ticks b) (levels b) (S (reads b))
          (pin_mode b) (pin_out b))).

Definition digitalWrite (pin : Z) (v : bool) : M unit :=
  fun w =>
    let b := board w in
    (tt,
     mkWorld (vars w)
       (mkBoard (clock b) (ticks b) (levels b) (reads b)
          (pin_mode b) (<[pin := v]> (pin_out b)))).

Definition pinMode (pin : Z) (m : PinMode) : M unit :=
  fun w =>
    let b := board w in
    (tt,
     mkWorld (vars w)
       (mkBoard (clock b) (ticks b) (levels b) (reads b)
          (<[pin := m]> (pin_mode b)) (pin_out b))).

(** ** The sketch *)

(** The test [millis() - lastSwTime > DEBOUNCE_MS] of [readSwitch]. *)
Definition debounce_elapsed (t last : Z) : bool :=
  DEBOUNCE_MS <? u32_sub t last.

(** The test [now - ledTimer >= LED_INTERVAL_MS] of [updateState]. *)
Definition interval_elapsed (t timer : Z) : bool :=
  LED_INTERVAL_MS <=? u32_sub t timer.

Definition readSwitch : M bool :=
  now <- digitalRead SW_PIN ;;
  last <- load lastSwState ;;
  when (negb (Bool.eqb now last))
    (t <- millis ;; store set_lastSwTime t) ;;
  t <- millis ;;
  lastT <- load lastSwTime ;;
  last <- load lastSwState ;;
  let pressed :=
    if debounce_elapsed t lastT
    then (if Bool.eqb last HIGH && Bool.eqb now LOW then true else false)
    else false in
  store set_lastSwState now ;;
  ret pressed.

(** [stepIndex++; if (stepIndex > STEP_ALL) stepIndex = STEP_OFF;] *)
Definition advanceStep : M unit :=
  s <- load stepIndex ;;
  store set_stepIndex (int_wrap (s + 1)) ;;
  s <- load stepIndex ;;
  when (STEP_ALL <? s) (store set_stepIndex STEP_OFF).

Definition updateState (swPressed : bool) : M unit :=
  when swPressed
    (m <- load mode ;;
     store set_mode (negb m) ;;
     store set_stepIndex STEP_OFF ;;
     t <- millis ;;
     store set_ledTimer t) ;;
  m <- load mode ;;
  when m
    (now <- millis ;;
     timer <- load ledTimer ;;
     when (interval_elapsed now timer)
       (store set_ledTimer now ;;
        advanceStep)).

Definition outputLEDs : M unit :=
  m <- load mode ;;
  if negb m then
    digitalWrite LED1_PIN LOW ;;
    digitalWrite LED2_PIN LOW ;;
    digitalWrite LED3_PIN LOW
  else
    s <- load stepIndex ;;
    digitalWrite LED1_PIN (if (s =? STEP_LED1) || (s =? STEP_ALL) then HIGH else LOW) ;;
    s <- load stepIndex ;;
    digitalWrite LED2_PIN (if (s =? STEP_LED2) || (s =? STEP_ALL) then HIGH else LOW) ;;
    s <- load stepIndex ;;
    digitalWrite LED3_PIN (if (s =? STEP_LED3) || (s =? STEP_ALL) then HIGH else LOW).

Definition setup : M unit :=
  pinMode SW_PIN INPUT_PULLUP ;;
  pinMode LED1_PIN OUTPUT ;;
  pinMode LED2_PIN OUTPUT ;;
  pinMode LED3_PIN OUTPUT.

Definition loop : M unit :=
  swPressed <- readSwitch ;;
  updateState swPressed ;;
  outputLEDs.

(** The initializers of the global variables. *)
Definition init_globals : Globals :=
  mkGlobals false HIGH 0 0 STEP_OFF.

(** The world at power-up, on a board with the given clock and input
    levels. *)
Definition boot (clk : nat -> Z) (lv : nat -> Z -> bool) : World :=
  mkWorld init_globals (mkBoard clk 0%nat lv 0%nat ∅ ∅).

(** [n] iterations of [loop]. *)
Fixpoint loops (n : nat) (w : World) : World :=
  match n with
  | O => w
  | S k => exec loop (loops k w)
  end.

(** The Arduino core runs [setup()] once and then [loop()] forever. *)
Definition run (n : nat) (clk : nat -> Z) (lv : nat -> Z -> bool) : World :=
  loops n (exec setup (boot clk lv)).

Definition reachable (w : World) : Prop :=
  exists n clk lv, w = run n clk lv.

(** ** Observations and specification-side definitions *)

(** The state of the output latch of a pin: [None] until the pin is
    written. *)
Definition led (pin : Z) (w : World) : option bool :=
  pin_out (board w) !! pin.

(** The closed form of [advanceStep] on the step counter. *)
Definition next_step (s : Z) : Z :=
  if STEP_ALL <? int_wrap (s + 1) then STEP_OFF else int_wrap (s + 1).

(** The successor in the cycle of the five patterns, as the specification
    words it: OFF, LED1, LED2, LED3, ALL and back to OFF. *)
Definition step_successor (s : Z) : Z := (s + 1) mod 5.

(** The time the code measures between a stored reading and a later one. *)
Definition elapsed_ms (t since : Z) : Z := u32_sub t since.

(** The range of the step counter. *)
Definition step_in_range (g : Globals) : Prop :=
  STEP_OFF <= stepIndex g <= STEP_ALL.

(** A clock on which two successive calls of [millis()] are never more than
    the debounce window apart: the loop polls faster than once in 20 ms. *)
Definition calm (clk : nat -> Z) : Prop :=
  forall k, elapsed_ms (u32 (clk (S k))) (u32 (clk k)) <= DEBOUNCE_MS.

(** A call is pure when, on the same board, its result and what it leaves
    on the output pins do not depend on the global variables, and it leaves
    the global variables as they were. *)
Definition pure_call {A : Type} (c : M A) : Prop :=
  forall w1 w2,
    board w1 = board w2 ->
    result c w1 = result c w2 /\
    vars (exec c w1) = vars w1 /\
    pin_out (board (exec c w1)) = pin_out (board (exec c w2)).

(** The part of the state the specification names: the mode flag and the
    step index. *)
Definition mode_step (w : World) : bool * Z :=
  (mode (vars w), stepIndex (vars w)).

(** The levels on the three LED pins. *)
Definition led_levels (w : World) : option bool * option bool * option bool :=
  (led LED1_PIN w, led LED2_PIN w, led LED3_PIN w).

(** The levels the LED pins show for a given mode flag and step index. *)
Definition led_pattern (a : bool * Z) : option bool * option bool * option bool :=
  let (m, s) := a in
  (Some (m && ((s =? STEP_LED1) || (s =? STEP_ALL))),
   Some (m && ((s =? STEP_LED2) || (s =? STEP_ALL))),
   Some (m && ((s =? STEP_LED3) || (s =? STEP_ALL)))).

(** The machine that carries only the mode flag and the step index: in one
    iteration it stays, advances the step while lit, toggles the mode and
    resets the step, or toggles to lit and advances at once. *)
Inductive abs_step : bool * Z -> bool * Z -> Prop :=
| abs_stay : forall a, abs_step a a
| abs_advance : forall s, abs_step (true, s) (true, next_step s)
| abs_toggle : forall m s, abs_step (m, s) (negb m, STEP_OFF)
| abs_toggle_advance : forall s, abs_step (false, s) (true, next_step STEP_OFF).

(** The worlds used as concrete inputs below. *)

(** A board on which every call of [millis()] happens at time [t] and every
    call of [digitalRead()] sees level [lv], holding globals [g]. *)
Definition still_world (g : Globals) (t : Z) (lv : bool) : World :=
  mkWorld g (mkBoard (fun _ => t) 0%nat (fun _ _ => lv) 0%nat ∅ ∅).

(** The button is released from power-up until 1000 ms and is then pushed
    and held; the [k]-th call of [millis()] happens at [1000 + k] ms. *)
Definition push_clock (k : nat) : Z := 1000 + Z.of_nat k.
Definition push_levels (k : nat) (pin : Z) : bool := LOW.

(** Lit mode at step OFF, with the LED timer last set at [timer]. *)
Definition lit_globals (timer : Z) : Globals :=
  mkGlobals true HIGH 0 timer STEP_OFF.

(** The two readings of the specification that the code does not bear out,
    stated so that they can be tested. *)

(** "Three pure functions". *)
Definition sketch_functions_pure : Prop :=
  pure_call readSwitch /\ (forall b, pure_call (updateState b)) /\
  pure_call outputLEDs.









(** A world that differs from [still_world init_globals 1000 LOW] in its
    clock, its counters and its pin modes, and delivers the same readings. *)
Definition late_world : World :=
  mkWorld init_globals
    (mkBoard (fun _ => 1000 + U32_MOD) 7%nat (fun _ _ => LOW) 3%nat
       {[ SW_PIN := INPUT_PULLUP ]} ∅).

(** ** Definitions for the properties of the whole sketch *)

(** The range of an [unsigned long]. *)
Definition in_u32 (z : Z) : Prop := 0 <= z < U32_MOD.

(** What holds of the globals in every reachable state besides the range
    of the step: a dark sketch rests at step OFF, and both stored times are
    readings of the clock. *)
Definition globals_inv (g : Globals) : Prop :=
  (mode g = false -> stepIndex g = STEP_OFF) /\
  in_u32 (ledTimer g) /\ in_u32 (lastSwTime g).

(** The number of LEDs that are lit. *)
Definition lit_count (l : option bool * option bool * option bool) : nat :=
  let '(a, b, c) := l in
  let one (x : option bool) :=
    match x with Some true => 1%nat | _ => 0%nat end in
  (one a + one b + one c)%nat.

(** The pins the sketch drives. *)
Definition is_led_pin (pin : Z) : bool :=
  (pin =? LED1_PIN) || (pin =? LED2_PIN) || (pin =? LED3_PIN).

(** The pins [setup] configures. *)
Definition is_sketch_pin (pin : Z) : bool :=
  (pin =? SW_PIN) || is_led_pin pin.

(** The button is never pushed. *)
Definition released (lv : nat -> Z -> bool) : Prop :=
  forall k, lv k SW_PIN = HIGH.

(** While the sketch is lit and the button released, an iteration reads the
    clock twice, and the second reading is the one [updateState] compares
    with [ledTimer].  On a paced clock, counted from call [t0], each of
    these readings is at least the LED interval after the one before. *)
Definition paced (clk : nat -> Z) (t0 : nat) : Prop :=
  forall k : nat,
    LED_INTERVAL_MS <=
    elapsed_ms (u32 (clk (t0 + 2 * k + 3)%nat)) (u32 (clk (t0 + 2 * k + 1)%nat)).

(** A clock that advances 100 ms from one call of [millis()] to the next,
    and a world at power-up on it with the button pushed. *)
Definition jump_clock (k : nat) : Z := 100 * Z.of_nat k.

Definition jump_world : World :=
  mkWorld init_globals (mkBoard jump_clock 0%nat push_levels 0%nat ∅ ∅).

(** A clock that advances 150 ms from one call of [millis()] to the next,
    and a lit world on it with the button released. *)
Definition pace_clock (k : nat) : Z := 1000 + 150 * Z.of_nat k.

Definition pace_world : World :=
  mkWorld (lit_globals 0)
    (mkBoard pace_clock 0%nat (fun _ _ => HIGH) 0%nat ∅ ∅).

(** ** Machine arithmetic *)

Lemma U32_MOD_value : U32_MOD = 4294967296.
Proof. reflexivity. Qed.

Lemma u32_range (z : Z) : 0 <= u32 z < U32_MOD.
Proof. unfold u32. apply Z.mod_pos_bound. reflexivity. Qed.

Lemma u32_small (z : Z) : 0 <= z < U32_MOD -> u32 z = z.
Proof. intros H. unfold u32. now apply Z.mod_small. Qed.

Lemma u32_sub_readings (a b : Z) : u32_sub (u32 a) (u32 b) = u32 (a - b).
Proof.
  unfold u32_sub, u32.
  rewrite Zminus_mod_idemp_l, Zminus_mod_idemp_r. reflexivity.
Qed.

Lemma u32_sub_same (a : Z) : u32_sub a a = 0.
Proof. unfold u32_sub, u32. rewrite Z.sub_diag. reflexivity. Qed.

Lemma int_wrap_small (z : Z) : -32768 <= z < 32768 -> int_wrap z = z.
Proof.
  intros H. unfold int_wrap, INT_BITS.
  change (2 ^ (16 - 1)) with 32768. change (2 ^ 16) with 65536.
  rewrite Z.mod_small; lia.
Qed.

Lemma int_wrap_range (z : Z) : -32768 <= int_wrap z < 32768.
Proof.
  unfold int_wrap, INT_BITS.
  change (2 ^ (16 - 1)) with 32768. change (2 ^ 16) with 65536.
  pose proof (Z.mod_pos_bound (z + 32768) 65536 eq_refl). lia.
Qed.

Lemma next_step_in_range (s : Z) :
  STEP_OFF <= s <= STEP_ALL -> next_step s = step_successor s.
Proof.
  unfold next_step, step_successor, STEP_OFF, STEP_ALL. intros H.
  rewrite int_wrap_small by lia.
  destruct (Z.ltb_spec 4 (s + 1)) as [Hgt | Hle].
  - assert (s = 4) by lia. subst s. reflexivity.
  - rewrite Z.mod_small; lia.
Qed.

Lemma next_step_range (s : Z) : STEP_OFF <= next_step s <= STEP_ALL \/ next_step s < STEP_OFF.
Proof.
  unfold next_step, STEP_OFF, STEP_ALL.
  destruct (Z.ltb_spec 4 (int_wrap (s + 1))); lia.
Qed.

Lemma next_step_moves (s : Z) : next_step s <> s.
Proof.
  unfold next_step, STEP_OFF, STEP_ALL.
  pose proof (int_wrap_range (s + 1)) as Hr.
  destruct (Z.ltb_spec 4 (int_wrap (s + 1))) as [Hgt | Hle].
  - intros <-.
    destruct (Z_le_gt_dec (-32768) (0 + 1)) as [_ | ?]; [ | lia ].
    rewrite int_wrap_small in Hgt; lia.
  - destruct (Z_lt_ge_dec s (-32768)) as [Hlow | Hlow]; [ lia | ].
    destruct (Z_lt_ge_dec (s + 1) 32768) as [Hhi | Hhi].
    + rewrite int_wrap_small by lia. lia.
    + lia.
Qed.

(** ** What one call of each function does *)

Ltac sketch :=
  unfold readSwitch, updateState, advanceStep, outputLEDs, setup, loop,
    result, exec, led;
  unfold bind, ret, when, load, store, millis, digitalRead, digitalWrite,
    pinMode, next_millis, second_millis, next_level;
  cbn [fst snd vars board mode lastSwState lastSwTime ledTimer stepIndex
       clock ticks levels reads pin_mode pin_out
       set_mode set_lastSwState set_lastSwTime set_ledTimer set_stepIndex
       negb andb Bool.eqb].

(** Name the components of a world, so that every projection computes. *)
Ltac open_world w :=
  destruct w as [[md ls lt tm st] [ck tk lv rd pm po]].

(** [readSwitch] answers [true] only on the call that sees the level fall,
    and then only if its own two readings of the clock are more than the
    window apart. *)
Lemma readSwitch_result (w : World) :
  result readSwitch w =
  lastSwState (vars w) && negb (next_level SW_PIN w) &&
  debounce_elapsed (second_millis w) (next_millis w).
Proof.
  open_world w. sketch.
  destruct ls, (lv rd SW_PIN); sketch;
    try destruct (debounce_elapsed _ _); reflexivity.
Qed.

Lemma readSwitch_vars (w : World) :
  vars (exec readSwitch w) =
  set_lastSwState (next_level SW_PIN w)
    (if Bool.eqb (next_level SW_PIN w) (lastSwState (vars w))
     then vars w
     else set_lastSwTime (next_millis w) (vars w)).
Proof.
  open_world w. sketch.
  destruct (lv rd SW_PIN), ls; sketch; reflexivity.
Qed.

Lemma readSwitch_board (w : World) :
  clock (board (exec readSwitch w)) = clock (board w) /\
  levels (board (exec readSwitch w)) = levels (board w) /\
  pin_mode (board (exec readSwitch w)) = pin_mode (board w) /\
  pin_out (board (exec readSwitch w)) = pin_out (board w).
Proof.
  open_world w. sketch.
  destruct (lv rd SW_PIN), ls; sketch; repeat split; reflexivity.
Qed.

Lemma advanceStep_run (w : World) :
  advanceStep w =
  (tt, mkWorld (set_stepIndex (next_step (stepIndex (vars w))) (vars w)) (board w)).
Proof.
  open_world w. sketch. unfold next_step.
  destruct (STEP_ALL <? int_wrap (st + 1)); reflexivity.
Qed.

(** Without a press, [updateState] acts only in lit mode and only once the
    interval has elapsed. *)
Lemma updateState_false_vars (w : World) :
  vars (exec (updateState false) w) =
  if mode (vars w) && interval_elapsed (next_millis w) (ledTimer (vars w))
  then set_stepIndex (next_step (stepIndex (vars w)))
         (set_ledTimer (next_millis w) (vars w))
  else vars w.
Proof.
  open_world w. sketch.
  destruct md; sketch; [ | reflexivity ].
  destruct (interval_elapsed _ _); sketch; [ | reflexivity ].
  unfold next_step. destruct (STEP_ALL <? _); reflexivity.
Qed.

(** With a press, the mode is toggled, the step reset and the timer set to
    the first reading; when the new mode is lit, the second reading is
    compared with the first. *)
Lemma updateState_true_vars (w : World) :
  vars (exec (updateState true) w) =
  let g := set_ledTimer (next_millis w)
             (set_stepIndex STEP_OFF (set_mode (negb (mode (vars w))) (vars w))) in
  if negb (mode (vars w)) && interval_elapsed (second_millis w) (next_millis w)
  then set_stepIndex (next_step STEP_OFF) (set_ledTimer (second_millis w) g)
  else g.
Proof.
  open_world w. sketch.
  destruct md; sketch; [ reflexivity | ].
  destruct (interval_elapsed _ _); sketch; reflexivity.
Qed.

Lemma updateState_board (b : bool) (w : World) :
  clock (board (exec (updateState b) w)) = clock (board w) /\
  levels (board (exec (updateState b) w)) = levels (board w) /\
  reads (board (exec (updateState b) w)) = reads (board w) /\
  pin_mode (board (exec (updateState b) w)) = pin_mode (board w) /\
  pin_out (board (exec (updateState b) w)) = pin_out (board w).
Proof.
  open_world w. sketch.
  destruct b, md; sketch;
    try destruct (interval_elapsed _ _); sketch;
    try destruct (STEP_ALL <? _); repeat split; reflexivity.
Qed.

Lemma outputLEDs_vars (w : World) : vars (exec outputLEDs w) = vars w.
Proof. open_world w. sketch. destruct md; reflexivity. Qed.

Lemma outputLEDs_pin_out (w : World) :
  pin_out (board (exec outputLEDs w)) =
  let m := mode (vars w) in
  let s := stepIndex (vars w) in
  <[LED3_PIN := m && ((s =? STEP_LED3) || (s =? STEP_ALL))]>
    (<[LED2_PIN := m && ((s =? STEP_LED2) || (s =? STEP_ALL))]>
       (<[LED1_PIN := m && ((s =? STEP_LED1) || (s =? STEP_ALL))]>
          (pin_out (board w)))).
Proof.
  open_world w. sketch. destruct md; sketch; [ | reflexivity ].
  unfold HIGH, LOW.
  destruct (_ || _), (_ || _), (_ || _); reflexivity.
Qed.

Lemma outputLEDs_board (w : World) :
  clock (board (exec outputLEDs w)) = clock (board w) /\
  ticks (board (exec outputLEDs w)) = ticks (board w) /\
  levels (board (exec outputLEDs w)) = levels (board w) /\
  reads (board (exec outputLEDs w)) = reads (board w) /\
  pin_mode (board (exec outputLEDs w)) = pin_mode (board w).
Proof. open_world w. sketch. destruct md; repeat split; reflexivity. Qed.

Lemma setup_vars (w : World) : vars (exec setup w) = vars w.
Proof. reflexivity. Qed.

Lemma setup_board (w : World) :
  clock (board (exec setup w)) = clock (board w) /\
  pin_out (board (exec setup w)) = pin_out (board w).
Proof. split; reflexivity. Qed.

(** One iteration of [loop] is the three calls in sequence. *)
Lemma loop_unfold (w : World) :
  exec loop w =
  exec outputLEDs (exec (updateState (result readSwitch w)) (exec readSwitch w)).
Proof.
  unfold loop, bind, exec, result.
  destruct (readSwitch w) as [p w1]. cbn [fst snd].
  destruct (updateState p w1) as [u w2]. reflexivity.
Qed.

Lemma loop_clock (w : World) : clock (board (exec loop w)) = clock (board w).
Proof.
  rewrite loop_unfold.
  destruct (outputLEDs_board
              (exec (updateState (result readSwitch w)) (exec readSwitch w)))
    as [-> _].
  destruct (updateState_board (result readSwitch w) (exec readSwitch w))
    as [-> _].
  destruct (readSwitch_board w) as [-> _]. reflexivity.
Qed.

Lemma loops_clock (n : nat) (w : World) :
  clock (board (loops n w)) = clock (board w).
Proof.
  induction n as [ | n IH]; cbn [loops]; [ reflexivity | ].
  rewrite loop_clock. exact IH.
Qed.

(** ** The debounce test *)

Lemma debounce_elapsed_true (t since : Z) :
  debounce_elapsed t since = true <-> DEBOUNCE_MS < elapsed_ms t since.
Proof. unfold debounce_elapsed, elapsed_ms. apply Z.ltb_lt. Qed.

Lemma interval_elapsed_true (t since : Z) :
  interval_elapsed t since = true <-> LED_INTERVAL_MS <= elapsed_ms t since.
Proof. unfold interval_elapsed, elapsed_ms. apply Z.leb_le. Qed.

Lemma interval_elapsed_false (t since : Z) :
  interval_elapsed t since = false <-> elapsed_ms t since < LED_INTERVAL_MS.
Proof. unfold interval_elapsed, elapsed_ms. apply Z.leb_gt. Qed.

(** [readSwitch] reports a press exactly when it sees the level fall and
    its own two successive readings of the clock, taken within the same
    call, are more than the window apart.  How long the released level was
    stable before plays no part. *)
Lemma readSwitch_pressed_iff (w : World) :
  result readSwitch w = true <->
  lastSwState (vars w) = HIGH /\ next_level SW_PIN w = LOW /\
  DEBOUNCE_MS < elapsed_ms (second_millis w) (next_millis w).
Proof.
  rewrite readSwitch_result, <- debounce_elapsed_true. unfold HIGH, LOW.
  destruct (lastSwState (vars w)), (next_level SW_PIN w),
    (debounce_elapsed _ _); cbn [andb negb]; intuition congruence.
Qed.

(** On a calm clock no call of [readSwitch] ever reports a press. *)
Lemma readSwitch_calm (w : World) :
  calm (clock (board w)) -> result readSwitch w = false.
Proof.
  intros Hcalm.
  destruct (result readSwitch w) eqn:Hres; [ | reflexivity ].
  apply readSwitch_pressed_iff in Hres. destruct Hres as (_ & _ & Hlt).
  specialize (Hcalm (ticks (board w))).
  unfold second_millis, next_millis in Hlt. lia.
Qed.

(** Hence, on a calm clock, the mode never leaves its initial value. *)
Lemma calm_loop_mode (w : World) :
  calm (clock (board w)) -> mode (vars w) = false ->
  mode (vars (exec loop w)) = false.
Proof.
  intros Hcalm Hmode.
  rewrite loop_unfold, outputLEDs_vars, (readSwitch_calm w Hcalm).
  rewrite updateState_false_vars, readSwitch_vars.
  destruct (Bool.eqb _ _); cbn [mode set_lastSwState set_lastSwTime];
    rewrite Hmode; cbn [andb mode]; exact Hmode.
Qed.

Lemma calm_loops_mode (n : nat) (w : World) :
  calm (clock (board w)) -> mode (vars w) = false ->
  mode (vars (loops n w)) = false.
Proof.
  intros Hcalm Hmode. induction n as [ | n IH]; cbn [loops]; [ exact Hmode | ].
  apply calm_loop_mode; [ | exact IH ].
  rewrite loops_clock. exact Hcalm.
Qed.

Lemma push_clock_calm : calm push_clock.
Proof.
  intros k. unfold elapsed_ms. rewrite u32_sub_readings.
  unfold push_clock. rewrite Nat2Z.inj_succ.
  replace (1000 + Z.succ (Z.of_nat k) - (1000 + Z.of_nat k)) with 1 by lia.
  unfold DEBOUNCE_MS. rewrite u32_small; [ lia | rewrite U32_MOD_value; lia ].
Qed.

(** ** The step counter stays in range *)

Lemma readSwitch_stepIndex (w : World) :
  stepIndex (vars (exec readSwitch w)) = stepIndex (vars w) /\
  mode (vars (exec readSwitch w)) = mode (vars w) /\
  ledTimer (vars (exec readSwitch w)) = ledTimer (vars w).
Proof.
  rewrite readSwitch_vars. destruct (Bool.eqb _ _); repeat split; reflexivity.
Qed.

Lemma next_step_keeps_range (s : Z) :
  STEP_OFF <= s <= STEP_ALL -> STEP_OFF <= next_step s <= STEP_ALL.
Proof.
  intros H. rewrite next_step_in_range by exact H.
  unfold step_successor, STEP_OFF, STEP_ALL.
  pose proof (Z.mod_pos_bound (s + 1) 5 eq_refl). lia.
Qed.

Lemma updateState_keeps_range (b : bool) (w : World) :
  step_in_range (vars w) -> step_in_range (vars (exec (updateState b) w)).
Proof.
  unfold step_in_range. intros H. destruct b.
  - rewrite updateState_true_vars. cbv zeta.
    destruct (_ && _); cbn [stepIndex set_stepIndex set_ledTimer set_mode].
    + apply next_step_keeps_range. unfold STEP_OFF, STEP_ALL. lia.
    + unfold STEP_OFF, STEP_ALL. lia.
  - rewrite updateState_false_vars.
    destruct (_ && _); cbn [stepIndex set_stepIndex set_ledTimer]; [ | exact H ].
    apply next_step_keeps_range, H.
Qed.

Lemma loop_keeps_range (w : World) :
  step_in_range (vars w) -> step_in_range (vars (exec loop w)).
Proof.
  intros H. rewrite loop_unfold, outputLEDs_vars.
  apply updateState_keeps_range. unfold step_in_range.
  destruct (readSwitch_stepIndex w) as [-> _]. exact H.
Qed.

Lemma reachable_in_range (w : World) : reachable w -> step_in_range (vars w).
Proof.
  intros (n & clk & lv & ->). unfold run.
  induction n as [ | n IH]; cbn [loops].
  - rewrite setup_vars. unfold step_in_range, boot, init_globals, STEP_OFF, STEP_ALL.
    cbn [vars stepIndex]. lia.
  - apply loop_keeps_range, IH.
Qed.

(** ** The claims *)

(** C1.  [readSwitch] is documented to debounce the switch and to return
    [true] at the moment the button is pushed.  It does not: the released
    level has been stable from power-up until 1000 ms when the call sees
    the level fall, and the call answers [false]; with the button held,
    no later call answers [true] either, and the mode never becomes lit. *)
Theorem readSwitch_misses_push :
  result readSwitch (still_world init_globals 1000 LOW) = false /\
  forall n,
    result readSwitch (run n push_clock push_levels) = false /\
    mode (vars (run n push_clock push_levels)) = false.
Proof.
  split; [ reflexivity | ].
  intros n. unfold run. split.
  - apply readSwitch_calm. rewrite loops_clock. exact push_clock_calm.
  - apply calm_loops_mode; [ exact push_clock_calm | reflexivity ].
Qed.

(** C2.  A call of [updateState] with [swPressed = true] toggles [mode],
    resets [stepIndex] to [STEP_OFF] and sets [ledTimer] to the reading of
    [millis()], in every state of the globals.  The clock is read a second
    time when the new mode is lit; the two readings of one call are taken
    to be less than the LED interval apart. *)
Theorem updateState_pressed (w : World)
  (Hclock : mode (vars w) = false ->
            elapsed_ms (second_millis w) (next_millis w) < LED_INTERVAL_MS) :
  mode (vars (exec (updateState true) w)) = negb (mode (vars w)) /\
  stepIndex (vars (exec (updateState true) w)) = STEP_OFF /\
  ledTimer (vars (exec (updateState true) w)) = next_millis w.
Proof.
  rewrite updateState_true_vars. cbv zeta.
  destruct (mode (vars w)) eqn:Hm; cbn [negb andb].
  - repeat split; reflexivity.
  - apply interval_elapsed_false in Hclock; [ | reflexivity ].
    rewrite Hclock. repeat split; reflexivity.
Qed.

Lemma updateState_pressed_witness :
  let w := still_world init_globals 1000 HIGH in
  (mode (vars w) = false ->
   elapsed_ms (second_millis w) (next_millis w) < LED_INTERVAL_MS) /\
  mode (vars (exec (updateState true) w)) = true /\
  stepIndex (vars (exec (updateState true) w)) = STEP_OFF /\
  ledTimer (vars (exec (updateState true) w)) = 1000.
Proof.
  intros w.
  assert (Hclock : mode (vars w) = false ->
            elapsed_ms (second_millis w) (next_millis w) < LED_INTERVAL_MS)
    by (intros _; vm_compute; reflexivity).
  split; [ exact Hclock | ].
  exact (updateState_pressed w Hclock).
Defined.

(** C3.  In every reachable state [stepIndex] is one of the five steps
    0..4.  In every state with the step in that range, reachable or not,
    a call of [updateState] leaves the step where the press handling put
    it or replaces it by its successor in the cycle, 4 being followed by
    0; without a press in lit mode it is replaced by the successor once
    the interval has elapsed, so that from [STEP_ALL] it goes back to
    [STEP_OFF]. *)
Theorem stepIndex_cycles (w : World) :
  (reachable w -> STEP_OFF <= stepIndex (vars w) <= STEP_ALL) /\
  step_successor STEP_ALL = STEP_OFF /\
  (STEP_OFF <= stepIndex (vars w) <= STEP_ALL ->
   stepIndex (vars (exec advanceStep w)) = step_successor (stepIndex (vars w)) /\
   (forall b : bool,
      let s0 := if b then STEP_OFF else stepIndex (vars w) in
      let s1 := stepIndex (vars (exec (updateState b) w)) in
      s1 = s0 \/ s1 = step_successor s0) /\
   (mode (vars w) = true ->
    LED_INTERVAL_MS <= elapsed_ms (next_millis w) (ledTimer (vars w)) ->
    stepIndex (vars (exec (updateState false) w)) =
    step_successor (stepIndex (vars w)) /\
    (stepIndex (vars w) = STEP_ALL ->
     stepIndex (vars (exec (updateState false) w)) = STEP_OFF))).
Proof.
  split; [ intros Hreach; apply (reachable_in_range w Hreach) | ].
  split; [ reflexivity | ].
  intros Hrange. split; [ | split ].
  - unfold exec. rewrite advanceStep_run. cbn [snd vars stepIndex set_stepIndex].
    apply next_step_in_range, Hrange.
  - intros [ | ]; cbv zeta.
    + rewrite updateState_true_vars. cbv zeta.
      destruct (_ && _); cbn [stepIndex set_stepIndex set_ledTimer set_mode].
      * right. apply next_step_in_range. unfold STEP_OFF, STEP_ALL. lia.
      * left. reflexivity.
    + rewrite updateState_false_vars.
      destruct (_ && _); cbn [stepIndex set_stepIndex set_ledTimer].
      * right. apply next_step_in_range, Hrange.
      * left. reflexivity.
  - intros Hm Hel. apply interval_elapsed_true in Hel.
    rewrite updateState_false_vars, Hm, Hel.
    cbn [andb stepIndex set_stepIndex].
    rewrite (next_step_in_range _ Hrange).
    split; [ reflexivity | ]. intros ->. reflexivity.
Qed.

(** After nine iterations on a clock that advances 100 ms per reading,
    with the button pushed, the sketch is lit at [STEP_ALL] and the
    interval has elapsed: the next [updateState] wraps to [STEP_OFF]. *)
Lemma stepIndex_cycles_witness :
  let w := run 9 jump_clock push_levels in
  reachable w /\
  mode (vars w) = true /\
  stepIndex (vars w) = STEP_ALL /\
  LED_INTERVAL_MS <= elapsed_ms (next_millis w) (ledTimer (vars w)) /\
  stepIndex (vars (exec advanceStep w)) = STEP_OFF /\
  stepIndex (vars (exec (updateState false) w)) = STEP_OFF.
Proof.
  intros w.
  assert (Hreach : reachable w)
    by (exists 9%nat, jump_clock, push_levels; reflexivity).
  assert (Hlit : mode (vars w) = true) by (vm_compute; reflexivity).
  assert (Hall : stepIndex (vars w) = STEP_ALL) by (vm_compute; reflexivity).
  assert (Hel : LED_INTERVAL_MS <= elapsed_ms (next_millis w) (ledTimer (vars w)))
    by (vm_compute; discriminate).
  destruct (stepIndex_cycles w) as (Hrange & _ & Hstep).
  destruct (Hstep (Hrange Hreach)) as (Hadv & _ & Hupd).
  destruct (Hupd Hlit Hel) as (_ & Hwrap).
  split; [ exact Hreach | ]. split; [ exact Hlit | ].
  split; [ exact Hall | ]. split; [ exact Hel | ].
  split; [ rewrite Hadv, Hall; reflexivity | exact (Hwrap Hall) ].
Defined.

(** C4.  Without a press: in lit mode [updateState] advances [stepIndex]
    exactly when at least [LED_INTERVAL_MS] has elapsed since [ledTimer],
    and then also sets [ledTimer] to the reading of the clock; otherwise it
    leaves the globals alone.  In dark mode [stepIndex] is not changed. *)
Theorem updateState_interval (w : World) :
  (mode (vars w) = true ->
   (LED_INTERVAL_MS <= elapsed_ms (next_millis w) (ledTimer (vars w)) ->
    vars (exec (updateState false) w) =
    set_stepIndex (next_step (stepIndex (vars w)))
      (set_ledTimer (next_millis w) (vars w))) /\
   (elapsed_ms (next_millis w) (ledTimer (vars w)) < LED_INTERVAL_MS ->
    vars (exec (updateState false) w) = vars w) /\
   (stepIndex (vars (exec (updateState false) w)) <> stepIndex (vars w) <->
    LED_INTERVAL_MS <= elapsed_ms (next_millis w) (ledTimer (vars w)))) /\
  (mode (vars w) = false ->
   stepIndex (vars (exec (updateState false) w)) = stepIndex (vars w)).
Proof.
  rewrite updateState_false_vars. split.
  - intros ->. cbn [andb]. split; [ | split ].
    + intros H. apply interval_elapsed_true in H. rewrite H. reflexivity.
    + intros H. apply interval_elapsed_false in H. rewrite H. reflexivity.
    + destruct (interval_elapsed _ _) eqn:Hel.
      * apply interval_elapsed_true in Hel.
        cbn [stepIndex set_stepIndex]. split; [ intros _; exact Hel | ].
        intros _. apply next_step_moves.
      * apply interval_elapsed_false in Hel. split; [ congruence | lia ].
  - intros ->. reflexivity.
Qed.

Lemma updateState_interval_witness :
  let w := still_world (lit_globals 700) 1000 HIGH in
  mode (vars w) = true /\
  LED_INTERVAL_MS <= elapsed_ms (next_millis w) (ledTimer (vars w)) /\
  vars (exec (updateState false) w) = mkGlobals true HIGH 0 1000 STEP_LED1.
Proof.
  intros w.
  assert (Hm : mode (vars w) = true) by reflexivity.
  assert (Hel : LED_INTERVAL_MS <= elapsed_ms (next_millis w) (ledTimer (vars w)))
    by (vm_compute; discriminate).
  split; [ exact Hm | ]. split; [ exact Hel | ].
  destruct (updateState_interval w) as [Hlit _].
  destruct (Hlit Hm) as [Hadv _].
  rewrite (Hadv Hel). reflexivity.
Defined.

(** The levels [outputLEDs] leaves on the three LED pins. *)
Lemma outputLEDs_led1 (w : World) :
  led LED1_PIN (exec outputLEDs w) =
  Some (mode (vars w) &&
        ((stepIndex (vars w) =? STEP_LED1) || (stepIndex (vars w) =? STEP_ALL))).
Proof.
  unfold led. rewrite outputLEDs_pin_out. cbv zeta.
  rewrite lookup_insert_ne by discriminate.
  rewrite lookup_insert_ne by discriminate.
  apply lookup_insert_eq.
Qed.

Lemma outputLEDs_led2 (w : World) :
  led LED2_PIN (exec outputLEDs w) =
  Some (mode (vars w) &&
        ((stepIndex (vars w) =? STEP_LED2) || (stepIndex (vars w) =? STEP_ALL))).
Proof.
  unfold led. rewrite outputLEDs_pin_out. cbv zeta.
  rewrite lookup_insert_ne by discriminate.
  apply lookup_insert_eq.
Qed.

Lemma outputLEDs_led3 (w : World) :
  led LED3_PIN (exec outputLEDs w) =
  Some (mode (vars w) &&
        ((stepIndex (vars w) =? STEP_LED3) || (stepIndex (vars w) =? STEP_ALL))).
Proof.
  unfold led. rewrite outputLEDs_pin_out. cbv zeta.
  apply lookup_insert_eq.
Qed.

Lemma outputLEDs_pattern (w : World) :
  led_levels (exec outputLEDs w) = led_pattern (mode_step w).
Proof.
  unfold led_levels, led_pattern, mode_step.
  rewrite outputLEDs_led1, outputLEDs_led2, outputLEDs_led3. reflexivity.
Qed.

(** A level is [HIGH] exactly when the mode is lit and the step is the
    pin's own step or [STEP_ALL]. *)
Lemma lit_level_iff (m : bool) (s k : Z) :
  Some (m && ((s =? k) || (s =? STEP_ALL))) = Some HIGH <->
  m = true /\ (s = k \/ s = STEP_ALL).
Proof.
  unfold HIGH. split.
  - intros H. injection H as H.
    apply andb_true_iff in H. destruct H as [Hm Hs].
    apply orb_true_iff in Hs. rewrite !Z.eqb_eq in Hs. tauto.
  - intros [-> Hs]. cbn [andb]. f_equal.
    apply orb_true_iff. rewrite !Z.eqb_eq. exact Hs.
Qed.

(** C5 as stated fails: none of the three functions is pure.  [readSwitch]
    overwrites [lastSwState], [updateState] toggles [mode], and what
    [outputLEDs] writes to the pins depends on [mode] and [stepIndex]. *)
Lemma sketch_functions_not_pure :
  ~ pure_call readSwitch /\
  ~ pure_call (updateState true) /\
  ~ pure_call outputLEDs /\
  ~ sketch_functions_pure.
Proof.
  assert (Hread : ~ pure_call readSwitch).
  { intros H.
    destruct (H (still_world init_globals 1000 LOW)
                (still_world init_globals 1000 LOW) eq_refl) as (_ & Hv & _).
    vm_compute in Hv. discriminate Hv. }
  assert (Hupd : ~ pure_call (updateState true)).
  { intros H.
    destruct (H (still_world init_globals 1000 HIGH)
                (still_world init_globals 1000 HIGH) eq_refl) as (_ & Hv & _).
    vm_compute in Hv. discriminate Hv. }
  assert (Hout : ~ pure_call outputLEDs).
  { intros H.
    destruct (H (still_world init_globals 1000 HIGH)
                (still_world (mkGlobals true HIGH 0 0 STEP_ALL) 1000 HIGH)
                eq_refl) as (_ & _ & Hp).
    apply (f_equal (fun m : gmap Z bool => m !! LED1_PIN)) in Hp.
    vm_compute in Hp. discriminate Hp. }
  repeat split; try assumption.
  intros (H & _ & _). exact (Hread H).
Qed.

(** What [outputLEDs] leaves on the pins it does not drive. *)
Lemma outputLEDs_other_pins (w : World) (pin : Z) :
  is_led_pin pin = false ->
  pin_out (board (exec outputLEDs w)) !! pin = pin_out (board w) !! pin.
Proof.
  intros Hpin. unfold is_led_pin in Hpin.
  apply orb_false_iff in Hpin. destruct Hpin as [Hpin H3].
  apply orb_false_iff in Hpin. destruct Hpin as [H1 H2].
  apply Z.eqb_neq in H1, H2, H3.
  rewrite outputLEDs_pin_out. cbv zeta.
  rewrite !lookup_insert_ne by congruence. reflexivity.
Qed.

(** C5, amended.  The three functions are not pure, but each is determined
    by its explicit argument together with the global variables it reads
    and the readings it takes from the board; two calls that agree on
    these behave identically.
    - [readSwitch] reads [lastSwState], [lastSwTime], the switch level and
      the clock (a second time when the level has changed), and writes
      only [lastSwState] and [lastSwTime];
    - [updateState] reads [mode], [stepIndex], [ledTimer] and the clock
      (once on a press or in lit mode, twice on a press in dark mode), and
      writes only these three globals;
    - [outputLEDs] reads [mode] and [stepIndex], takes no reading, writes
      no global variable and no pin other than the three LED pins. *)
Theorem calls_determined_by_globals_and_readings :
  (forall w1 w2 : World,
     lastSwState (vars w1) = lastSwState (vars w2) ->
     lastSwTime (vars w1) = lastSwTime (vars w2) ->
     next_level SW_PIN w1 = next_level SW_PIN w2 ->
     next_millis w1 = next_millis w2 ->
     (next_level SW_PIN w1 <> lastSwState (vars w1) ->
      second_millis w1 = second_millis w2) ->
     result readSwitch w1 = result readSwitch w2 /\
     lastSwState (vars (exec readSwitch w1)) =
     lastSwState (vars (exec readSwitch w2)) /\
     lastSwTime (vars (exec readSwitch w1)) =
     lastSwTime (vars (exec readSwitch w2))) /\
  (forall w : World,
     mode (vars (exec readSwitch w)) = mode (vars w) /\
     stepIndex (vars (exec readSwitch w)) = stepIndex (vars w) /\
     ledTimer (vars (exec readSwitch w)) = ledTimer (vars w) /\
     pin_out (board (exec readSwitch w)) = pin_out (board w) /\
     pin_mode (board (exec readSwitch w)) = pin_mode (board w)) /\
  (forall (b : bool) (w1 w2 : World),
     mode (vars w1) = mode (vars w2) ->
     stepIndex (vars w1) = stepIndex (vars w2) ->
     ledTimer (vars w1) = ledTimer (vars w2) ->
     (b = true \/ mode (vars w1) = true -> next_millis w1 = next_millis w2) ->
     (b = true /\ mode (vars w1) = false ->
      second_millis w1 = second_millis w2) ->
     mode (vars (exec (updateState b) w1)) =
     mode (vars (exec (updateState b) w2)) /\
     stepIndex (vars (exec (updateState b) w1)) =
     stepIndex (vars (exec (updateState b) w2)) /\
     ledTimer (vars (exec (updateState b) w1)) =
     ledTimer (vars (exec (updateState b) w2))) /\
  (forall (b : bool) (w : World),
     lastSwState (vars (exec (updateState b) w)) = lastSwState (vars w) /\
     lastSwTime (vars (exec (updateState b) w)) = lastSwTime (vars w) /\
     pin_out (board (exec (updateState b) w)) = pin_out (board w) /\
     pin_mode (board (exec (updateState b) w)) = pin_mode (board w)) /\
  (forall w1 w2 : World,
     mode (vars w1) = mode (vars w2) ->
     stepIndex (vars w1) = stepIndex (vars w2) ->
     led_levels (exec outputLEDs w1) = led_levels (exec outputLEDs w2)) /\
  (forall w : World,
     vars (exec outputLEDs w) = vars w /\
     (forall pin : Z, is_led_pin pin = false ->
        pin_out (board (exec outputLEDs w)) !! pin = pin_out (board w) !! pin) /\
     pin_mode (board (exec outputLEDs w)) = pin_mode (board w) /\
     ticks (board (exec outputLEDs w)) = ticks (board w) /\
     reads (board (exec outputLEDs w)) = reads (board w)).
Proof.
  split; [ | split; [ | split; [ | split; [ | split ] ] ] ].
  - intros w1 w2 Hls Hlt Hlv Ht1 Ht2.
    rewrite !readSwitch_result, !readSwitch_vars, <- Hlv, <- Hls, <- Ht1.
    destruct (next_level SW_PIN w1) eqn:El, (lastSwState (vars w1)) eqn:Es;
      cbn [Bool.eqb andb negb lastSwState lastSwTime set_lastSwState
           set_lastSwTime];
      repeat split; try reflexivity; try exact Hlt.
    rewrite Ht2 by discriminate. reflexivity.
  - intros w.
    destruct (readSwitch_stepIndex w) as (Hs & Hm & Ht).
    destruct (readSwitch_board w) as (_ & _ & Hpm & Hpo). auto.
  - intros b w1 w2 Hm Hs Ht Ht1 Ht2. destruct b.
    + rewrite !updateState_true_vars, <- Hm, <- (Ht1 (or_introl eq_refl)).
      cbv zeta.
      destruct (mode (vars w1)) eqn:Em; cbn [negb andb].
      * repeat split; reflexivity.
      * rewrite <- (Ht2 (conj eq_refl eq_refl)).
        destruct (interval_elapsed _ _); repeat split; reflexivity.
    + rewrite !updateState_false_vars, <- Hm, <- Ht.
      destruct (mode (vars w1)) eqn:Em; cbn [andb].
      * rewrite <- (Ht1 (or_intror eq_refl)).
        destruct (interval_elapsed _ _);
          cbn [mode stepIndex ledTimer set_stepIndex set_ledTimer];
          repeat split; congruence.
      * repeat split; congruence.
  - intros b w.
    destruct (updateState_board b w) as (_ & _ & _ & Hpm & Hpo).
    split; [ | split; [ | split; [ exact Hpo | exact Hpm ] ] ].
    + destruct b.
      * rewrite updateState_true_vars. cbv zeta. destruct (_ && _); reflexivity.
      * rewrite updateState_false_vars. destruct (_ && _); reflexivity.
    + destruct b.
      * rewrite updateState_true_vars. cbv zeta. destruct (_ && _); reflexivity.
      * rewrite updateState_false_vars. destruct (_ && _); reflexivity.
  - intros w1 w2 Hm Hs. rewrite !outputLEDs_pattern. unfold mode_step.
    rewrite Hm, Hs. reflexivity.
  - intros w.
    destruct (outputLEDs_board w) as (_ & Ht & _ & Hr & Hpm).
    split; [ apply outputLEDs_vars | ].
    split; [ intros pin Hpin; apply outputLEDs_other_pins, Hpin | ].
    auto.
Qed.

(** Two worlds on different boards, with different pin modes and counters,
    that deliver the same readings. *)
Lemma calls_determined_witness :
  let w1 := still_world init_globals 1000 LOW in
  let w2 := late_world in
  board w1 <> board w2 /\
  result readSwitch w1 = result readSwitch w2 /\
  lastSwState (vars (exec readSwitch w1)) =
  lastSwState (vars (exec readSwitch w2)) /\
  ledTimer (vars (exec (updateState true) w1)) =
  ledTimer (vars (exec (updateState true) w2)) /\
  led_levels (exec outputLEDs w1) = led_levels (exec outputLEDs w2).
Proof.
  intros w1 w2.
  destruct calls_determined_by_globals_and_readings
    as (Hread & _ & Hupd & _ & Hout & _).
  destruct (Hread w1 w2 eq_refl eq_refl eq_refl eq_refl (fun _ => eq_refl))
    as (Hres & Hls & _).
  destruct (Hupd true w1 w2 eq_refl eq_refl eq_refl
              (fun _ => eq_refl) (fun _ => eq_refl)) as (_ & _ & Ht).
  pose proof (Hout w1 w2 eq_refl eq_refl) as Hl.
  split; [ | split; [ exact Hres | split; [ exact Hls | split;
    [ exact Ht | exact Hl ] ] ] ].
  intros Hb. apply (f_equal ticks) in Hb. discriminate Hb.
Defined.

(** One call of [updateState] is a move of the machine on mode and step. *)
Lemma updateState_abs_step (b : bool) (w : World) :
  abs_step (mode_step w) (mode_step (exec (updateState b) w)).
Proof.
  unfold mode_step. destruct b.
  - rewrite updateState_true_vars. cbv zeta.
    destruct (mode (vars w)) eqn:Hm; cbn [negb andb].
    + cbn [mode stepIndex set_ledTimer set_stepIndex set_mode].
      apply (abs_toggle true).
    + destruct (interval_elapsed _ _);
        cbn [mode stepIndex set_ledTimer set_stepIndex set_mode].
      * apply abs_toggle_advance.
      * apply (abs_toggle false).
  - rewrite updateState_false_vars.
    destruct (mode (vars w)) eqn:Hm; cbn [andb].
    + destruct (interval_elapsed _ _);
        cbn [mode stepIndex set_ledTimer set_stepIndex]; rewrite ?Hm.
      * apply abs_advance.
      * apply abs_stay.
    + rewrite Hm. apply abs_stay.
Qed.

Lemma loop_abs_step (w : World) :
  abs_step (mode_step w) (mode_step (exec loop w)) /\
  led_levels (exec loop w) = led_pattern (mode_step (exec loop w)).
Proof.
  rewrite loop_unfold. split.
  - replace (mode_step w) with (mode_step (exec readSwitch w)).
    + unfold mode_step at 2. rewrite outputLEDs_vars.
      apply updateState_abs_step.
    + unfold mode_step.
      destruct (readSwitch_stepIndex w) as (-> & -> & _). reflexivity.
  - rewrite outputLEDs_pattern. unfold mode_step.
    rewrite outputLEDs_vars. reflexivity.
Qed.









(** C7.  After [outputLEDs], LED pin k is HIGH if and only if [mode] is
    true and [stepIndex] is [STEP_LEDk] or [STEP_ALL]; otherwise it is LOW.
    With [mode] false, and with [stepIndex = STEP_OFF], all three are LOW. *)
Theorem outputLEDs_levels (w : World) :
  let m := mode (vars w) in
  let s := stepIndex (vars w) in
  let w' := exec outputLEDs w in
  (led LED1_PIN w' = Some HIGH <-> m = true /\ (s = STEP_LED1 \/ s = STEP_ALL)) /\
  (led LED2_PIN w' = Some HIGH <-> m = true /\ (s = STEP_LED2 \/ s = STEP_ALL)) /\
  (led LED3_PIN w' = Some HIGH <-> m = true /\ (s = STEP_LED3 \/ s = STEP_ALL)) /\
  (led LED1_PIN w' = Some HIGH \/ led LED1_PIN w' = Some LOW) /\
  (led LED2_PIN w' = Some HIGH \/ led LED2_PIN w' = Some LOW) /\
  (led LED3_PIN w' = Some HIGH \/ led LED3_PIN w' = Some LOW) /\
  (m = false \/ s = STEP_OFF -> led_levels w' = (Some LOW, Some LOW, Some LOW)).
Proof.
  cbv zeta. unfold led_levels.
  rewrite outputLEDs_led1, outputLEDs_led2, outputLEDs_led3.
  repeat split; try (apply lit_level_iff; assumption);
    try (apply lit_level_iff in H; tauto).
  - unfold HIGH, LOW. destruct (_ && _); auto.
  - unfold HIGH, LOW. destruct (_ && _); auto.
  - unfold HIGH, LOW. destruct (_ && _); auto.
  - intros [-> | ->]; [ reflexivity | ].
    unfold LOW. destruct (mode (vars w)); reflexivity.
Qed.

(** C8.  With [swPressed = false] and [mode] false, [updateState] changes
    nothing, whatever the clock says: the globals, the board and even the
    count of clock readings are as before. *)
Theorem updateState_dark_idle (w : World) (Hdark : mode (vars w) = false) :
  exec (updateState false) w = w.
Proof.
  open_world w. cbn [vars mode] in Hdark. subst md. reflexivity.
Qed.

Lemma updateState_dark_idle_witness :
  let w := still_world (mkGlobals false HIGH 0 0 STEP_LED2) 4000000 HIGH in
  mode (vars w) = false /\ exec (updateState false) w = w.
Proof.
  intros w. split; [ reflexivity | ].
  apply (updateState_dark_idle w). reflexivity.
Defined.

(** C9.  Both elapsed-time tests subtract modulo 2^32.  When the clock was
    read at true time [T0] and is read again at true time [T1], less than
    2^32 ms later, the difference of the two readings is the true elapsed
    time, also when the counter has wrapped in between, and each test
    agrees with the comparison on the true elapsed time. *)
Theorem elapsed_tests_survive_wrap (T0 T1 : Z)
  (Hgap : 0 <= T1 - T0 < U32_MOD) :
  elapsed_ms (u32 T1) (u32 T0) = T1 - T0 /\
  debounce_elapsed (u32 T1) (u32 T0) = (DEBOUNCE_MS <? T1 - T0) /\
  interval_elapsed (u32 T1) (u32 T0) = (LED_INTERVAL_MS <=? T1 - T0).
Proof.
  assert (Hsub : u32_sub (u32 T1) (u32 T0) = T1 - T0).
  { rewrite u32_sub_readings. apply u32_small, Hgap. }
  unfold elapsed_ms, debounce_elapsed, interval_elapsed.
  rewrite Hsub. repeat split; reflexivity.
Qed.

Lemma elapsed_tests_survive_wrap_witness :
  let T0 := U32_MOD - 10 in
  let T1 := U32_MOD + 295 in
  0 <= T1 - T0 < U32_MOD /\
  u32 T1 < u32 T0 /\
  elapsed_ms (u32 T1) (u32 T0) = 305 /\
  debounce_elapsed (u32 T1) (u32 T0) = true /\
  interval_elapsed (u32 T1) (u32 T0) = true.
Proof.
  intros T0 T1.
  assert (Hgap : 0 <= T1 - T0 < U32_MOD)
    by (split; [ vm_compute; discriminate | vm_compute; reflexivity ]).
  split; [ exact Hgap | ].
  split; [ vm_compute; reflexivity | ].
  exact (elapsed_tests_survive_wrap T0 T1 Hgap).
Defined.

(** ** Further properties of the sketch *)

Lemma readSwitch_counts (w : World) :
  reads (board (exec readSwitch w)) = S (reads (board w)) /\
  ticks (board (exec readSwitch w)) =
  (if Bool.eqb (next_level SW_PIN w) (lastSwState (vars w))
   then S (ticks (board w)) else S (S (ticks (board w)))).
Proof.
  open_world w. sketch.
  destruct (lv rd SW_PIN), ls; sketch; split; reflexivity.
Qed.

Lemma updateState_mode (b : bool) (w : World) :
  mode (vars (exec (updateState b) w)) =
  if b then negb (mode (vars w)) else mode (vars w).
Proof.
  destruct b.
  - rewrite updateState_true_vars. cbv zeta. destruct (_ && _); reflexivity.
  - rewrite updateState_false_vars. destruct (_ && _); reflexivity.
Qed.

(** X1.  [readSwitch] stores the level it has just read in [lastSwState],
    whatever it returns; [lastSwTime] becomes the reading of the clock when
    that level differs from the stored one and is kept when it does not. *)
Theorem readSwitch_tracks_level (w : World) :
  lastSwState (vars (exec readSwitch w)) = next_level SW_PIN w /\
  (next_level SW_PIN w <> lastSwState (vars w) ->
   lastSwTime (vars (exec readSwitch w)) = next_millis w) /\
  (next_level SW_PIN w = lastSwState (vars w) ->
   lastSwTime (vars (exec readSwitch w)) = lastSwTime (vars w) /\
   result readSwitch w = false).
Proof.
  rewrite readSwitch_vars, readSwitch_result.
  destruct (next_level SW_PIN w), (lastSwState (vars w));
    cbn [Bool.eqb lastSwState lastSwTime set_lastSwState set_lastSwTime
         andb negb];
    (split; [ reflexivity | ]);
    (split; [ intros Hne; try congruence; reflexivity | ]);
    intros Heq; try discriminate Heq; split; reflexivity.
Qed.

(** X2.  A press is never reported twice in a row: the call after one that
    returned [true] returns [false], on any clock and any input. *)
Theorem readSwitch_no_repeat (w : World)
  (Hpress : result readSwitch w = true) :
  result readSwitch (exec readSwitch w) = false.
Proof.
  apply readSwitch_pressed_iff in Hpress. destruct Hpress as (_ & Hlow & _).
  rewrite readSwitch_result, readSwitch_vars.
  destruct (Bool.eqb _ _); cbn [lastSwState set_lastSwState];
    rewrite Hlow; reflexivity.
Qed.

Lemma readSwitch_no_repeat_witness :
  result readSwitch jump_world = true /\
  result readSwitch (exec readSwitch jump_world) = false.
Proof.
  assert (Hpress : result readSwitch jump_world = true) by reflexivity.
  split; [ exact Hpress | ].
  exact (readSwitch_no_repeat jump_world Hpress).
Defined.

(** The invariant of the globals. *)
Lemma next_millis_in_u32 (w : World) : in_u32 (next_millis w).
Proof. apply u32_range. Qed.

Lemma second_millis_in_u32 (w : World) : in_u32 (second_millis w).
Proof. apply u32_range. Qed.

Lemma readSwitch_keeps_inv (w : World) :
  globals_inv (vars w) -> globals_inv (vars (exec readSwitch w)).
Proof.
  unfold globals_inv. intros (Hoff & Hled & Hsw).
  rewrite readSwitch_vars.
  destruct (Bool.eqb _ _);
    cbn [mode stepIndex ledTimer lastSwTime set_lastSwState set_lastSwTime];
    (split; [ exact Hoff | split; [ exact Hled | ] ]).
  - exact Hsw.
  - apply next_millis_in_u32.
Qed.

Lemma updateState_keeps_inv (b : bool) (w : World) :
  globals_inv (vars w) -> globals_inv (vars (exec (updateState b) w)).
Proof.
  unfold globals_inv. intros (Hoff & Hled & Hsw). destruct b.
  - rewrite updateState_true_vars. cbv zeta.
    destruct (mode (vars w)) eqn:Hm; cbn [negb andb].
    + cbn [mode stepIndex ledTimer lastSwTime set_ledTimer set_stepIndex set_mode].
      split; [ reflexivity | split; [ apply next_millis_in_u32 | exact Hsw ] ].
    + destruct (interval_elapsed _ _);
        cbn [mode stepIndex ledTimer lastSwTime set_ledTimer set_stepIndex
             set_mode].
      * split; [ discriminate | split; [ apply second_millis_in_u32 | exact Hsw ] ].
      * split; [ discriminate | split; [ apply next_millis_in_u32 | exact Hsw ] ].
  - rewrite updateState_false_vars.
    destruct (mode (vars w)) eqn:Hm; cbn [andb].
    + destruct (interval_elapsed _ _);
        cbn [mode stepIndex ledTimer lastSwTime set_ledTimer set_stepIndex];
        rewrite ?Hm.
      * split; [ discriminate | split; [ apply next_millis_in_u32 | exact Hsw ] ].
      * split; [ discriminate | split; [ exact Hled | exact Hsw ] ].
    + rewrite Hm. split; [ exact Hoff | split; [ exact Hled | exact Hsw ] ].
Qed.

Lemma loop_keeps_inv (w : World) :
  globals_inv (vars w) -> globals_inv (vars (exec loop w)).
Proof.
  intros H. rewrite loop_unfold, outputLEDs_vars.
  apply updateState_keeps_inv, readSwitch_keeps_inv, H.
Qed.

Lemma loops_keep_inv (n : nat) (w : World) :
  globals_inv (vars w) -> globals_inv (vars (loops n w)).
Proof.
  intros H. induction n as [ | n IH]; cbn [loops]; [ exact H | ].
  apply loop_keeps_inv, IH.
Qed.

Lemma boot_inv (clk : nat -> Z) (lv : nat -> Z -> bool) :
  globals_inv (vars (exec setup (boot clk lv))).
Proof.
  rewrite setup_vars. unfold globals_inv, in_u32, boot, init_globals.
  cbn [vars mode stepIndex ledTimer lastSwTime]. rewrite U32_MOD_value.
  split; [ reflexivity | split; lia ].
Qed.

(** X3.  In every reachable state: while the mode is dark the step is
    [STEP_OFF], and [ledTimer] and [lastSwTime] hold values of an
    [unsigned long]. *)
Theorem reachable_globals (w : World) (Hreach : reachable w) :
  (mode (vars w) = false -> stepIndex (vars w) = STEP_OFF) /\
  0 <= ledTimer (vars w) < U32_MOD /\
  0 <= lastSwTime (vars w) < U32_MOD.
Proof.
  destruct Hreach as (n & clk & lv & ->). unfold run.
  apply (loops_keep_inv n), boot_inv.
Qed.

Lemma reachable_globals_witness :
  let w := run 4 jump_clock push_levels in
  reachable w /\
  (mode (vars w) = false -> stepIndex (vars w) = STEP_OFF) /\
  0 <= ledTimer (vars w) < U32_MOD /\
  0 <= lastSwTime (vars w) < U32_MOD.
Proof.
  intros w.
  assert (Hreach : reachable w)
    by (exists 4%nat, jump_clock, push_levels; reflexivity).
  split; [ exact Hreach | ].
  exact (reachable_globals w Hreach).
Defined.

(** X4.  On a clock whose successive readings are never more than the
    debounce window apart, whatever the button does, the sketch never
    leaves dark mode: after any number of iterations the mode is false,
    the step is [STEP_OFF] and the three LEDs are LOW. *)
Theorem calm_clock_never_lights (clk : nat -> Z) (lv : nat -> Z -> bool)
  (n : nat) (Hcalm : calm clk) :
  mode (vars (run n clk lv)) = false /\
  stepIndex (vars (run n clk lv)) = STEP_OFF /\
  (n <> 0%nat ->
   led_levels (run n clk lv) = (Some LOW, Some LOW, Some LOW)).
Proof.
  assert (Hmode : forall k, mode (vars (run k clk lv)) = false).
  { intros k. unfold run. apply calm_loops_mode; [ exact Hcalm | reflexivity ]. }
  split; [ apply Hmode | ]. split.
  - assert (Hinv : globals_inv (vars (run n clk lv)))
      by (unfold run; apply loops_keep_inv, boot_inv).
    destruct Hinv as (Hoff & _). apply Hoff, Hmode.
  - destruct n as [ | k]; [ congruence | intros _ ].
    specialize (Hmode (S k)). unfold run in *. cbn [loops] in *.
    destruct (loop_abs_step (loops k (exec setup (boot clk lv)))) as [_ ->].
    unfold mode_step. rewrite Hmode. reflexivity.
Qed.

Lemma calm_clock_never_lights_witness :
  calm push_clock /\
  mode (vars (run 5 push_clock push_levels)) = false /\
  led_levels (run 5 push_clock push_levels) = (Some LOW, Some LOW, Some LOW).
Proof.
  split; [ exact push_clock_calm | ].
  destruct (calm_clock_never_lights push_clock push_levels 5 push_clock_calm)
    as (Hm & _ & Hl).
  split; [ exact Hm | apply Hl; discriminate ].
Defined.

(** The world [setup] leaves. *)
Lemma setup_run (w : World) :
  exec setup w =
  mkWorld (vars w)
    (mkBoard (clock (board w)) (ticks (board w)) (levels (board w))
       (reads (board w))
       (<[LED3_PIN := OUTPUT]>
          (<[LED2_PIN := OUTPUT]>
             (<[LED1_PIN := OUTPUT]>
                (<[SW_PIN := INPUT_PULLUP]> (pin_mode (board w))))))
       (pin_out (board w))).
Proof. reflexivity. Qed.

(** X5.  [setup] makes the switch pin an input with pull-up and the three
    LED pins outputs, leaves the mode of every other pin, the globals and
    the output latches as they were, and running it again changes
    nothing. *)
Theorem setup_configures_pins (w : World) :
  pin_mode (board (exec setup w)) !! SW_PIN = Some INPUT_PULLUP /\
  pin_mode (board (exec setup w)) !! LED1_PIN = Some OUTPUT /\
  pin_mode (board (exec setup w)) !! LED2_PIN = Some OUTPUT /\
  pin_mode (board (exec setup w)) !! LED3_PIN = Some OUTPUT /\
  (forall pin : Z, is_sketch_pin pin = false ->
     pin_mode (board (exec setup w)) !! pin = pin_mode (board w) !! pin) /\
  vars (exec setup w) = vars w /\
  pin_out (board (exec setup w)) = pin_out (board w) /\
  exec setup (exec setup w) = exec setup w.
Proof.
  rewrite (setup_run (exec setup w)). rewrite !(setup_run w).
  cbn [vars board clock ticks levels reads pin_mode pin_out].
  set (pm := pin_mode (board w)).
  split; [ rewrite !lookup_insert_ne by discriminate; apply lookup_insert_eq | ].
  split; [ rewrite !lookup_insert_ne by discriminate; apply lookup_insert_eq | ].
  split; [ rewrite !lookup_insert_ne by discriminate; apply lookup_insert_eq | ].
  split; [ apply lookup_insert_eq | ].
  split.
  { intros pin Hpin. unfold is_sketch_pin, is_led_pin in Hpin.
    apply orb_false_iff in Hpin. destruct Hpin as [Hsw Hled].
    apply orb_false_iff in Hled. destruct Hled as [Hled Hl3].
    apply orb_false_iff in Hled. destruct Hled as [Hl1 Hl2].
    apply Z.eqb_neq in Hsw, Hl1, Hl2, Hl3.
    rewrite !lookup_insert_ne by congruence. reflexivity. }
  split; [ reflexivity | ]. split; [ reflexivity | ].
  do 2 f_equal. apply map_eq. intros pin.
  rewrite !lookup_insert. repeat case_decide; reflexivity.
Qed.

Lemma lit_count_pattern (m : bool) (s : Z) :
  lit_count (led_pattern (m, s)) = 0%nat \/
  lit_count (led_pattern (m, s)) = 1%nat \/
  lit_count (led_pattern (m, s)) = 3%nat.
Proof.
  unfold led_pattern, lit_count, STEP_LED1, STEP_LED2, STEP_LED3, STEP_ALL.
  destruct m; cbn [andb]; [ | left; reflexivity ].
  destruct (Z.eqb_spec s 4) as [-> | H4].
  - right; right. reflexivity.
  - rewrite !orb_false_r.
    destruct (Z.eqb_spec s 1) as [-> | H1]; [ right; left; reflexivity | ].
    destruct (Z.eqb_spec s 2) as [-> | H2]; [ right; left; reflexivity | ].
    destruct (Z.eqb_spec s 3) as [-> | H3]; [ right; left; reflexivity | ].
    left. reflexivity.
Qed.

(** X6.  Whatever the mode and the step, [outputLEDs] lights none, one or
    all three of the LEDs, never exactly two; what was on the pins before
    does not matter, and calling it again changes nothing. *)
Theorem outputLEDs_none_one_or_all (w : World) :
  (lit_count (led_levels (exec outputLEDs w)) = 0%nat \/
   lit_count (led_levels (exec outputLEDs w)) = 1%nat \/
   lit_count (led_levels (exec outputLEDs w)) = 3%nat) /\
  (forall w0 : World, vars w0 = vars w ->
     led_levels (exec outputLEDs w0) = led_levels (exec outputLEDs w)) /\
  exec outputLEDs (exec outputLEDs w) = exec outputLEDs w.
Proof.
  split; [ | split ].
  - rewrite outputLEDs_pattern. apply lit_count_pattern.
  - intros w0 Hv. rewrite !outputLEDs_pattern. unfold mode_step.
    rewrite Hv. reflexivity.
  - open_world w. sketch.
    destruct md; sketch; do 2 f_equal; apply map_eq; intros pin;
      rewrite !lookup_insert; repeat case_decide; reflexivity.
Qed.

(** What an iteration does to the board. *)
Lemma loop_board (w : World) :
  reads (board (exec loop w)) = S (reads (board w)) /\
  levels (board (exec loop w)) = levels (board w) /\
  pin_mode (board (exec loop w)) = pin_mode (board w) /\
  (forall pin : Z, is_led_pin pin = false ->
     pin_out (board (exec loop w)) !! pin = pin_out (board w) !! pin).
Proof.
  rewrite loop_unfold.
  set (w1 := exec readSwitch w).
  set (w2 := exec (updateState (result readSwitch w)) w1).
  destruct (outputLEDs_board w2) as (_ & _ & Hl3 & Hr3 & Hm3).
  destruct (updateState_board (result readSwitch w) w1)
    as (_ & Hl2 & Hr2 & Hm2 & Ho2).
  fold w2 in Hl2, Hr2, Hm2, Ho2.
  destruct (readSwitch_board w) as (_ & Hl1 & Hm1 & Ho1).
  destruct (readSwitch_counts w) as (Hr1 & _).
  fold w1 in Hl1, Hm1, Ho1, Hr1.
  split; [ congruence | ]. split; [ congruence | ]. split; [ congruence | ].
  intros pin Hpin. unfold is_led_pin in Hpin.
  apply orb_false_iff in Hpin. destruct Hpin as [Hpin H3].
  apply orb_false_iff in Hpin. destruct Hpin as [H1 H2].
  apply Z.eqb_neq in H1, H2, H3.
  rewrite outputLEDs_pin_out. cbv zeta.
  rewrite !lookup_insert_ne by congruence. congruence.
Qed.

(** X7.  Every iteration of [loop] polls the switch exactly once, never
    changes a pin mode, and never writes a pin other than the three LED
    pins; from the first iteration on, all three LED pins are driven. *)
Theorem loops_board_footprint (n : nat) (w : World) :
  reads (board (loops n w)) = (n + reads (board w))%nat /\
  pin_mode (board (loops n w)) = pin_mode (board w) /\
  (forall pin : Z, is_led_pin pin = false ->
     pin_out (board (loops n w)) !! pin = pin_out (board w) !! pin) /\
  (n <> 0%nat ->
   is_Some (led LED1_PIN (loops n w)) /\
   is_Some (led LED2_PIN (loops n w)) /\
   is_Some (led LED3_PIN (loops n w))).
Proof.
  split; [ | split; [ | split ] ].
  - induction n as [ | n IH]; cbn [loops]; [ reflexivity | ].
    destruct (loop_board (loops n w)) as (-> & _). rewrite IH. reflexivity.
  - induction n as [ | n IH]; cbn [loops]; [ reflexivity | ].
    destruct (loop_board (loops n w)) as (_ & _ & -> & _). exact IH.
  - intros pin Hpin. induction n as [ | n IH]; cbn [loops]; [ reflexivity | ].
    destruct (loop_board (loops n w)) as (_ & _ & _ & Hout).
    rewrite (Hout pin Hpin). exact IH.
  - destruct n as [ | n]; [ congruence | intros _ ]. cbn [loops].
    rewrite loop_unfold.
    rewrite outputLEDs_led1, outputLEDs_led2, outputLEDs_led3.
    repeat split; eexists; reflexivity.
Qed.

(** X8.  [updateState] changes [mode] exactly when it is told of a press,
    whatever the clock reads, so two presses restore the mode; a press
    that leaves the sketch dark leaves it at step OFF. *)
Theorem updateState_mode_follows_press (b : bool) (w : World) :
  mode (vars (exec (updateState b) w)) =
  (if b then negb (mode (vars w)) else mode (vars w)) /\
  mode (vars (exec (updateState true) (exec (updateState true) w))) =
  mode (vars w) /\
  (mode (vars (exec (updateState true) w)) = false ->
   stepIndex (vars (exec (updateState true) w)) = STEP_OFF).
Proof.
  split; [ apply updateState_mode | ]. split.
  - rewrite !(updateState_mode true). apply negb_involutive.
  - rewrite updateState_true_vars. cbv zeta.
    destruct (mode (vars w)); cbn [negb andb].
    + reflexivity.
    + destruct (interval_elapsed _ _); cbn [mode set_stepIndex set_ledTimer
        set_mode]; discriminate.
Qed.

Lemma loops_shift (n : nat) (w : World) :
  loops (S n) w = loops n (exec loop w).
Proof.
  induction n as [ | n IH]; [ reflexivity | ].
  cbn [loops] in *. rewrite IH. reflexivity.
Qed.

Lemma updateState_false_ticks (w : World) :
  ticks (board (exec (updateState false) w)) =
  if mode (vars w) then S (ticks (board w)) else ticks (board w).
Proof.
  open_world w. sketch. destruct md; sketch; [ | reflexivity ].
  destruct (interval_elapsed _ _); sketch; [ | reflexivity ].
  destruct (STEP_ALL <? _); reflexivity.
Qed.

(** With the button released and the stored level [HIGH], [readSwitch]
    changes no global, reads the clock once and reports nothing. *)
Lemma readSwitch_released (w : World) :
  lastSwState (vars w) = HIGH ->
  next_level SW_PIN w = HIGH ->
  result readSwitch w = false /\
  vars (exec readSwitch w) = vars w /\
  ticks (board (exec readSwitch w)) = S (ticks (board w)).
Proof.
  intros Hlast Hlv.
  destruct (readSwitch_counts w) as (_ & Ht).
  rewrite readSwitch_result, readSwitch_vars, Ht, Hlv, Hlast.
  cbn [Bool.eqb HIGH andb negb]. repeat split.
  destruct (vars w) as [md ls lt tm st]. cbn [lastSwState] in Hlast.
  subst ls. reflexivity.
Qed.

(** An iteration in lit mode, with the button released and the interval
    elapsed at the second reading of the clock: the step advances and the
    timer restarts from that reading. *)
Lemma loop_due (w : World) :
  mode (vars w) = true ->
  lastSwState (vars w) = HIGH ->
  next_level SW_PIN w = HIGH ->
  LED_INTERVAL_MS <= elapsed_ms (second_millis w) (ledTimer (vars w)) ->
  vars (exec loop w) =
    set_stepIndex (next_step (stepIndex (vars w)))
      (set_ledTimer (second_millis w) (vars w)) /\
  ticks (board (exec loop w)) = S (S (ticks (board w))) /\
  reads (board (exec loop w)) = S (reads (board w)) /\
  clock (board (exec loop w)) = clock (board w) /\
  levels (board (exec loop w)) = levels (board w).
Proof.
  intros Hm Hlast Hlv Hel. apply interval_elapsed_true in Hel.
  destruct (readSwitch_released w Hlast Hlv) as (Hres & Hv1 & Ht1).
  destruct (readSwitch_board w) as (Hc1 & _).
  destruct (loop_board w) as (Hr & Hl & _).
  assert (Hnext : next_millis (exec readSwitch w) = second_millis w).
  { unfold next_millis, second_millis. rewrite Hc1, Ht1. reflexivity. }
  split; [ | split; [ | split; [ exact Hr | split; [ apply loop_clock | exact Hl ] ] ] ].
  - rewrite loop_unfold, outputLEDs_vars, Hres, updateState_false_vars.
    rewrite Hnext, Hv1, Hm, Hel. reflexivity.
  - rewrite loop_unfold.
    destruct (outputLEDs_board
                (exec (updateState (result readSwitch w)) (exec readSwitch w)))
      as (_ & -> & _).
    rewrite Hres, updateState_false_ticks, Hv1, Hm, Ht1. reflexivity.
Qed.

Lemma lit_steps (n : nat) :
  forall w : World,
    mode (vars w) = true ->
    lastSwState (vars w) = HIGH ->
    step_in_range (vars w) ->
    released (levels (board w)) ->
    LED_INTERVAL_MS <= elapsed_ms (second_millis w) (ledTimer (vars w)) ->
    paced (clock (board w)) (ticks (board w)) ->
    mode (vars (loops n w)) = true /\
    stepIndex (vars (loops n w)) = (stepIndex (vars w) + Z.of_nat n) mod 5.
Proof.
  induction n as [ | n IH]; intros w Hm Hlast Hrange Hrel Hfirst Hpace.
  - cbn [loops]. split; [ exact Hm | ].
    unfold step_in_range, STEP_OFF, STEP_ALL in Hrange.
    rewrite Z.add_0_r, Z.mod_small; lia.
  - rewrite loops_shift.
    destruct (loop_due w Hm Hlast (Hrel _) Hfirst)
      as (Hv & Ht & Hr & Hc & Hl).
    assert (Hstep : stepIndex (vars (exec loop w)) =
                    step_successor (stepIndex (vars w))).
    { rewrite Hv. cbn [stepIndex set_stepIndex].
      apply next_step_in_range, Hrange. }
    destruct (IH (exec loop w)) as (Hm' & Hs').
    + rewrite Hv. exact Hm.
    + rewrite Hv. exact Hlast.
    + apply loop_keeps_range, Hrange.
    + rewrite Hl. exact Hrel.
    + rewrite Hv. cbn [ledTimer set_stepIndex set_ledTimer].
      unfold second_millis at 1 2. rewrite Hc, Ht.
      specialize (Hpace 0%nat).
      replace (ticks (board w) + 2 * 0 + 3)%nat
        with (S (S (S (ticks (board w))))) in Hpace by lia.
      replace (ticks (board w) + 2 * 0 + 1)%nat
        with (S (ticks (board w))) in Hpace by lia.
      exact Hpace.
    + rewrite Hc, Ht. intros k. specialize (Hpace (S k)).
      replace (S (S (ticks (board w))) + 2 * k + 3)%nat
        with (ticks (board w) + 2 * S k + 3)%nat by lia.
      replace (S (S (ticks (board w))) + 2 * k + 1)%nat
        with (ticks (board w) + 2 * S k + 1)%nat by lia.
      exact Hpace.
    + split; [ exact Hm' | ].
      rewrite Hs', Hstep. unfold step_successor.
      rewrite Zplus_mod_idemp_l. f_equal. lia.
Qed.

(** X9.  Lit, with the button released and the clock paced so that the
    interval has elapsed at every iteration, the sketch steps through the
    five patterns in order and round again: after [n] iterations the step
    is [(stepIndex + n) mod 5] and the LEDs show its pattern. *)
Theorem lit_sequence (n : nat) (w : World)
  (Hlit : mode (vars w) = true)
  (Hlast : lastSwState (vars w) = HIGH)
  (Hrange : STEP_OFF <= stepIndex (vars w) <= STEP_ALL)
  (Hreleased : released (levels (board w)))
  (Hfirst : LED_INTERVAL_MS <= elapsed_ms (second_millis w) (ledTimer (vars w)))
  (Hpaced : paced (clock (board w)) (ticks (board w))) :
  mode (vars (loops n w)) = true /\
  stepIndex (vars (loops n w)) = (stepIndex (vars w) + Z.of_nat n) mod 5 /\
  (n <> 0%nat ->
   led_levels (loops n w) =
   led_pattern (true, (stepIndex (vars w) + Z.of_nat n) mod 5)).
Proof.
  destruct (lit_steps n w Hlit Hlast Hrange Hreleased Hfirst Hpaced)
    as (Hm & Hs).
  split; [ exact Hm | ]. split; [ exact Hs | ].
  destruct n as [ | k]; [ congruence | intros _ ].
  cbn [loops] in *.
  destruct (loop_abs_step (loops k w)) as [_ ->].
  unfold mode_step. rewrite Hm, Hs. reflexivity.
Qed.

Lemma pace_clock_paced : paced pace_clock 0.
Proof.
  intros k. unfold elapsed_ms. rewrite u32_sub_readings. unfold pace_clock.
  replace (1000 + 150 * Z.of_nat (0 + 2 * k + 3) -
           (1000 + 150 * Z.of_nat (0 + 2 * k + 1))) with 300 by lia.
  vm_compute. discriminate.
Qed.

Lemma lit_sequence_witness :
  stepIndex (vars (loops 7 pace_world)) = STEP_LED2 /\
  led_levels (loops 7 pace_world) = (Some LOW, Some HIGH, Some LOW).
Proof.
  assert (Hrange : STEP_OFF <= stepIndex (vars pace_world) <= STEP_ALL)
    by (split; discriminate).
  assert (Hreleased : released (levels (board pace_world)))
    by (intros k; reflexivity).
  assert (Hfirst : LED_INTERVAL_MS <=
                   elapsed_ms (second_millis pace_world)
                     (ledTimer (vars pace_world)))
    by (vm_compute; discriminate).
  destruct (lit_sequence 7 pace_world eq_refl eq_refl Hrange Hreleased Hfirst
              pace_clock_paced) as (_ & Hs & Hl).
  split; [ exact Hs | ]. apply Hl. discriminate.
Defined.
